(** * cxx: the [std::tree] container of src/tree.h and of its C++20 draft

    A shallow embedding of the tree container of the repository
    (seanhobeck/cxx).  The repository holds three drafts of the header:

    - the C++20 draft ([class node], [tree::search], [append], [remove],
      [index], [operator[]]), called here "the C++20 draft";
    - src/tree.h ([class _node], [tree()], [operator[](data)]);
    - the oldest draft, with [std::shared_ptr] handles and
      [tree() : _root(nullptr)].

    The three drafts share the node layout and, word for word, the
    pre-order iterator.  Definitions that differ between drafts carry the
    draft's own class name ([node] against [_node]). *)

From Stdlib Require Import String.
From Stdlib Require Import List Arith Lia Bool ZArith Ascii.
From Equations Require Import Equations.
Import ListNotations.

Set Implicit Arguments.
Set Warnings "-register-all".
Open Scope list_scope.

(** ** Exceptions

    The only [throw] of the headers is [std::out_of_range] in
    [node::operator[]].  A throwing member returns [exception + A]. *)

Inductive exception : Type :=
| out_of_range (what : string).

Definition throws (A : Type) : Type := (exception + A)%type.

Definition ret {A : Type} (a : A) : throws A := inr a.
Definition throw {A : Type} (e : exception) : throws A := inl e.
Definition bind {A B : Type} (m : throws A) (k : A -> throws B) : throws B :=
  match m with
  | inl e => inl e
  | inr a => k a
  end.

Notation "x <- m ;; k" := (bind m (fun x => k))
  (at level 61, m at next level, right associativity).

Section Tree.

(** The element type and the two operators the concept [__is_cmp] asks
    for: [a == b] and [a != b], each convertible to [bool].  The concept
    asks for nothing else, in particular for no relation between them. *)
Variable _ty : Type.
Variable ty_eq : _ty -> _ty -> bool.
Variable ty_ne : _ty -> _ty -> bool.

(** ** [class node]

    [_data], [_parent] (a [std::shared_ptr<node>], null for a root) and
    [_children] (a [std::vector<node>]: the children are held by value,
    in insertion order). *)
Inductive node : Type :=
| mk_node (data : _ty) (parent : option node) (children : list node).

Definition _data (n : node) : _ty :=
  match n with mk_node d _ _ => d end.
Definition _parent (n : node) : option node :=
  match n with mk_node _ p _ => p end.
Definition _children (n : node) : list node :=
  match n with mk_node _ _ c => c end.

(** [explicit node(_ty const &data) : _data(data), _parent(nullptr)] *)
Definition node_of (data : _ty) : node := mk_node data None [].

(** [node(_ty const &data, std::shared_ptr<node> parent)] *)
Definition node_with_parent (data : _ty) (parent : option node) : node :=
  mk_node data parent [].

Definition children (n : node) : list node := _children n.
Definition parent (n : node) : option node := _parent n.
Definition data (n : node) : _ty := _data n.

(** [bool is_leaf() { return this->_children.empty(); }] *)
Definition is_leaf (n : node) : bool :=
  match _children n with [] => true | _ :: _ => false end.

(** [bool is_root() { return this->_parent == nullptr; }] *)
Definition is_root (n : node) : bool :=
  match _parent n with None => true | Some _ => false end.

(** [bool operator==(node const &o) { return this->_data == o._data; }] *)
Definition node_eq (this o : node) : bool := ty_eq (_data this) (_data o).

(** C++20 draft:
    [bool operator!=(node const &o) { return this->_data != o._data; }] *)
Definition node_ne (this o : node) : bool := ty_ne (_data this) (_data o).

(** src/tree.h, [class _node]:
    [bool operator==(_node a, _node b) { return a._data == b._data; }]
    [bool operator!=(_node a, _node b) { return !(a._data == b._data); }] *)
Definition _node_eq (a b : node) : bool := ty_eq (_data a) (_data b).
Definition _node_ne (a b : node) : bool := negb (ty_eq (_data a) (_data b)).

(** [void append(node const &child) {
       child.parent = std::make_shared<node>(this);
       this->_children.push_back(child); }]

    [std::make_shared<node>] allocates a node of its own, built from
    [this] as it stands before the [push_back]; the child then goes, by
    value, to the end of the vector.  The function has no other
    statement: no test, no [throw].  It returns [void]; the embedding
    returns the new state of [this].

    [child] is a reference.  [append this child] is the call on an
    object [child] other than [this]: a node of the caller's, which
    includes every copy of a descendant of [this], since [children()],
    [operator[]] and [search] hand out copies and the nodes inside
    [_children] cannot be referred to from outside. *)
Definition set_parent (child : node) (p : option node) : node :=
  mk_node (_data child) p (_children child).

Definition append (this child : node) : node :=
  let child' := set_parent child (Some this) in
  mk_node (_data this) (_parent this) (_children this ++ [child']).


(** [void remove(node const &child) { this->_children.remove(child); }]

    The function hands the children and [child] to a member [remove]
    of the container and does nothing else.  It returns [void]: the
    embedding returns the new state of [this] and the unit value.
    [remove_with] is the function with the container's member as a
    parameter. *)
Definition remove_with (member : list node -> node -> list node)
           (this child : node) : node * unit :=
  (mk_node (_data this) (_parent this) (member (_children this) child), tt).

(** Modelled from the spec: the member [remove] of [_children].
    [_children] is a [std::vector<node>] and [std::vector] has no member
    of that name, so the header does not say what the call erases.  The
    specification's [remove] "removes the first child structurally equal
    (by [T] equality) to [child] from [children]", and "removing a
    non-existent child is a no-op".  [e == value] is
    [node::operator==]. *)
Fixpoint vector_remove (c : list node) (value : node) : list node :=
  match c with
  | [] => []
  | e :: c' => if node_eq e value then c' else e :: vector_remove c' value
  end.

Definition remove (this child : node) : node * unit :=
  remove_with vector_remove this child.

(** The other reading of the call: the member [remove(value)] that
    [std::list] has, which erases every element [e] with [e == value]. *)
Definition list_remove (c : list node) (value : node) : list node :=
  filter (fun e => negb (node_eq e value)) c.

(** [std::find(first, last, value)]: the first position whose element
    [e] has [e == value], or [last] when there is none.  A position of
    the vector is its offset from [begin()]. *)
Fixpoint std_find (value : node) (c : list node) : nat :=
  match c with
  | [] => 0
  | e :: c' => if node_eq e value then 0 else S (std_find value c')
  end.

(** [unsigned int index(node const& child) {
       return std::find(this->_children.begin(),
                        this->_children.end(), child); }]

    The [unsigned int] returned is the position [std::find] stops at. *)
Definition index (this child : node) : nat :=
  std_find child (_children this).

(** [std::shared_ptr<node> operator[](unsigned int idx) {
       if (idx >= this->_children.size())
         throw std::out_of_range("index out of range");
       return std::make_shared<node>(this->_children[idx]); }]

    Past the test [idx] is a position of the vector, so the last branch
    of the embedding is never taken. *)
Definition node_at (this : node) (idx : nat) : throws node :=
  if length (_children this) <=? idx
  then throw (out_of_range "index out of range"%string)
  else match nth_error (_children this) idx with
       | Some c => ret c
       | None => throw (out_of_range "index out of range"%string)
       end.

(** ** Work lists: [std::stack<node>]

    The top of the stack is the head of the list.  [top()] and [pop()]
    on an empty stack have no defined result: [None]. *)
Definition stack_push (s : list node) (n : node) : list node := n :: s.

Definition stack_top (s : list node) : option node :=
  match s with
  | [] => None
  | n :: _ => Some n
  end.

Definition stack_pop (s : list node) : option (list node) :=
  match s with
  | [] => None
  | _ :: s' => Some s'
  end.

Definition stack_empty (s : list node) : bool :=
  match s with
  | [] => true
  | _ :: _ => false
  end.

(** [operator==] of [std::stack]: that of the underlying sequence, equal
    sizes and elements equal pairwise under [node::operator==]. *)
Fixpoint stack_eq (a b : list node) : bool :=
  match a, b with
  | [], [] => true
  | x :: a', y :: b' => node_eq x y && stack_eq a' b'
  | _, _ => false
  end.

(** Number of nodes of a subtree, and of the subtrees of a work list. *)
Fixpoint count (n : node) : nat :=
  match n with
  | mk_node _ _ cs => S (list_sum (map count cs))
  end.

Definition stack_count (s : list node) : nat := list_sum (map count s).

(** ** [class _iterator]: the pre-order iterator (the same text in the
    three drafts)

    Its one field is [std::stack<node> _nodes]. *)
Record _iterator : Type := Iterator { _nodes : list node }.

(** [explicit _iterator(node node) { if (node) this->_nodes.push(node); }]
    The argument is tested as a handle that may be null, and [end()]
    passes [nullptr]: it is an [option node]. *)
Definition mk_iterator (n : option node) : _iterator :=
  match n with
  | Some n' => Iterator (stack_push [] n')
  | None => Iterator []
  end.

(** [std::stack<node> nodes() { return this->_nodes; }] *)
Definition nodes (it : _iterator) : list node := _nodes it.

(** [bool operator==(_iterator const &other)
       { return this->_nodes == other.nodes; }] *)
Definition iter_eq (this other : _iterator) : bool :=
  stack_eq (_nodes this) (nodes other).

(** [bool operator!=(_iterator const &other)
       { return !( *this == other); }] *)
Definition iter_ne (this other : _iterator) : bool :=
  negb (iter_eq this other).

(** [_ref operator*() { return this->_nodes.top()->data; }] *)
Definition deref (it : _iterator) : option _ty :=
  match stack_top (_nodes it) with
  | Some n => Some (data n)
  | None => None
  end.

(** [_iterator &operator++() {
       auto current = this->_nodes.top();
       this->_nodes.pop();
       for (auto it = current->children().rbegin();
            it != current->children().rend(); ++it)
         this->_nodes.push( *it);
       return *this; }]

    [top()] is read with no test before it: on an empty stack there is
    no defined result.  [children()] returns the vector by value
    ([std::vector<node> children() { return this->_children; }]), so the
    loop takes [rbegin()] of one temporary vector and compares it with
    [rend()] of another.  When [current] has no child both are the ends
    of empty vectors and the body is not entered.  When [current] has a
    child the iterator [it] outlives the vector it points into and is
    compared with, and read after, the end of another one: there is no
    defined result. *)
Definition incr (it : _iterator) : option _iterator :=
  match stack_top (_nodes it), stack_pop (_nodes it) with
  | Some current, Some rest =>
      match children current with
      | [] => Some (Iterator rest)
      | _ :: _ => None
      end
  | _, _ => None
  end.

(** [_iterator operator++(int) { _iterator tmp = *this; ++( *this);
       return tmp; }]: the value returned and the new state. *)
Definition post_incr (it : _iterator) : option (_iterator * _iterator) :=
  match incr it with
  | Some it' => Some (it, it')
  | None => None
  end.

(** [n] applications of [operator++]. *)
Fixpoint incr_n (n : nat) (it : _iterator) : option _iterator :=
  match n with
  | O => Some it
  | S n' =>
      match incr it with
      | Some it' => incr_n n' it'
      | None => None
      end
  end.

(** The loop of a caller,
    [for (auto it = t.begin(); it != t.end(); ++it) out.push_back( *it);]
    with [last] the value of [t.end()].  [fuel] bounds the number of
    turns; [None] is a run that is out of fuel or in which [operator*]
    or [operator++] has no defined result. *)
Fixpoint traverse (fuel : nat) (it last : _iterator) : option (list _ty) :=
  if iter_ne it last then
    match fuel with
    | O => None
    | S fuel' =>
        match deref it, incr it with
        | Some v, Some it' =>
            match traverse fuel' it' last with
            | Some vs => Some (v :: vs)
            | None => None
            end
        | _, _ => None
        end
    end
  else Some [].

(** [for (const node child: c) s.push(child);] *)
Definition push_forward (c s : list node) : list node :=
  fold_left stack_push c s.

(** The loop of [tree::search] (C++20 draft) and of
    [tree::operator[](data)] (src/tree.h), from the state of
    [node_stack]:

    [while (!node_stack.empty()) {
       node current_node = node_stack.top();
       node_stack.pop();
       if (current_node.data() == data)
         return std::make_shared<node>(current_node);
       for (const node child: current_node.children())
         node_stack.push(child);
     }
     return nullptr;] *)
Equations? search_loop (data0 : _ty) (node_stack : list node) : option node
  by wf (stack_count node_stack) lt :=
  search_loop data0 [] := None;
  search_loop data0 (current_node :: rest) :=
    if ty_eq (data current_node) data0
    then Some current_node
    else search_loop data0 (push_forward (children current_node) rest).
Proof.
  clear search_loop.
  destruct current_node as [d p cs].
  unfold stack_count, push_forward, children; simpl.
  enough (H : forall s, list_sum (map count (fold_left stack_push cs s))
                        = list_sum (map count cs) + list_sum (map count s))
    by (rewrite H; lia).
  induction cs as [|c cs IH]; intros s; simpl; [reflexivity|].
  rewrite IH; simpl; lia.
Qed.

(** The tree of the specification's example: root [R] with children
    [A; B], and [A] with children [C; D], built with [append]. *)
Definition family (R A B C D : _ty) : node :=
  append (append (node_of R)
                 (append (append (node_of A) (node_of C)) (node_of D)))
         (node_of B).

(** ** Orders of visit and the words of the specification *)

(** Pre-order: a node before its children, the children from the first to
    the last. *)
Fixpoint preorder (n : node) : list node :=
  match n with
  | mk_node _ _ cs => n :: flat_map preorder cs
  end.

(** The mirror order: a node before its children, the children from the
    last to the first. *)
Fixpoint rpreorder (n : node) : list node :=
  match n with
  | mk_node _ _ cs => n :: fold_right (fun c acc => acc ++ rpreorder c) [] cs
  end.

(** [subnode a b]: [b] is [a] itself or a descendant of [a]. *)
Inductive subnode : node -> node -> Prop :=
| subnode_self (n : node) : subnode n n
| subnode_child (n c m : node) :
    In c (children n) -> subnode c m -> subnode n m.

(** The specification's [index_of]: "the 0-based position of the first
    structurally-equal child, or none if absent". *)
Fixpoint first_equal (child : node) (c : list node) : option nat :=
  match c with
  | [] => None
  | e :: c' =>
      if node_eq e child then Some 0 else option_map S (first_equal child c')
  end.

Definition index_of_spec (this child : node) : option nat :=
  first_equal child (_children this).

(** The specification's [remove]: "removes the first child structurally
    equal to [child]; returns whether a match was found". *)
Fixpoint erase_first (child : node) (c : list node) : list node * bool :=
  match c with
  | [] => ([], false)
  | e :: c' =>
      if node_eq e child then (c', true)
      else let (r, found) := erase_first child c' in (e :: r, found)
  end.

Definition remove_spec (this child : node) : node * bool :=
  let (c, found) := erase_first child (_children this) in
  (mk_node (_data this) (_parent this) c, found).

End Tree.

(** ** [class tree], C++20 draft

    [node _root]: the tree always has a root; its constructors are
    [tree(_ty data)] and [tree(node root)]. *)
Module Cxx20.
Section Tree.
Variable _ty : Type.
Variable ty_eq : _ty -> _ty -> bool.

Record tree : Type := Tree { _root : node _ty }.

(** [explicit tree(_ty data) { this->_root = node(data); }] *)
Definition tree_of_data (d : _ty) : tree := Tree (node_of d).

(** [explicit tree(node root) : _root(root) {}] *)
Definition tree_of_node (root : node _ty) : tree := Tree root.

(** [_iterator begin() { return _iterator(_root); }] *)
Definition begin (t : tree) : _iterator _ty := mk_iterator (Some (_root t)).

(** [_iterator end() { return _iterator(nullptr); }] *)
Definition end_ (t : tree) : _iterator _ty := mk_iterator None.

(** [std::shared_ptr<node> search(_ty const &data) {
       std::stack<node> node_stack;
       node_stack.push(this->_root);
       while ... }] *)
Definition search (t : tree) (d : _ty) : option (node _ty) :=
  search_loop ty_eq d (stack_push [] (_root t)).

(** [void append(node const &child) {
       child.parent = std::make_shared<node>(this->_root);
       this->_root.push_back(child); }]

    The two statements of [node::append], on the root. *)
Definition append (t : tree) (child : node _ty) : tree :=
  Tree (append (_root t) child).

(** [void remove(node const &child) { this->_root.remove(child); }] *)
Definition remove (t : tree) (child : node _ty) : tree * unit :=
  let (r, u) := remove ty_eq (_root t) child in (Tree r, u).

(** [unsigned int index(node const& child) {
       return std::find(this->_root.children.begin(),
                        this->_root.children.end(), child); }] *)
Definition index (t : tree) (child : node _ty) : nat :=
  std_find ty_eq child (children (_root t)).

(** [std::shared_ptr<node> operator[](unsigned int idx) {
       return std::make_shared<node>(this->_root[idx]); }] *)
Definition at_ (t : tree) (idx : nat) : throws (node _ty) :=
  c <- node_at (_root t) idx ;; ret c.

End Tree.
End Cxx20.

(** ** [class tree], src/tree.h and the oldest draft

    The root is a handle that may be null: [tree()] leaves it null
    ([tree() : _root(nullptr)] in the oldest draft), the iterator's
    constructor and [operator[](data)] test it. *)
Module TreeH.
Section Tree.
Variable _ty : Type.
Variable ty_eq : _ty -> _ty -> bool.

Record tree : Type := Tree { _root : option (node _ty) }.

(** [tree() : _root(nullptr) {}] in the oldest draft,
    [tree() { this->_root = _node(); }] in src/tree.h: the root is the
    handle that [if (!this->_root)] and [if (node)] find null. *)
Definition tree_empty : tree := Tree None.

(** [tree(_node root) : _root(root) {}] *)
Definition tree_of_node (root : option (node _ty)) : tree := Tree root.

(** [_iterator begin() { return _iterator(_root); }] *)
Definition begin (t : tree) : _iterator _ty := mk_iterator (_root t).

(** [_iterator end() { return _iterator(nullptr); }] *)
Definition end_ (t : tree) : _iterator _ty := mk_iterator None.

(** [std::shared_ptr<_node> operator[](const _ty &data) {
       if (!this->_root) return nullptr;
       std::stack<_node> node_stack;
       node_stack.push(this->_root);
       while ... }] *)
Definition at_data (t : tree) (d : _ty) : option (node _ty) :=
  match _root t with
  | None => None
  | Some root => search_loop ty_eq d (stack_push [] root)
  end.

End Tree.
End TreeH.

(** ** The format functions (format.h drafts)

    [vformat], [vnformat] and [voformat], and with [wchar_t] and
    [std::swprintf] in place of [char] and [std::snprintf] the same text
    as [wformat], [wnformat] and [woformat].  The C library and the
    allocator are parameters:

    - [call]: a format string together with its arguments;
    - [measure c]: the [int] that [std::snprintf(nullptr, 0, ...)]
      returns for the call [c];
    - [print_to buf n c]: the contents of the buffer after
      [std::snprintf(buf, n, ...)], whose result the code drops;
    - [fresh n]: the contents of [new char[n]].

    [std::size_t] has 64 bits. *)
Module Format.
Section Printf.
Variable char : Type.
Variable call : Type.
Variable measure : call -> Z.
Variable print_to : list char -> Z -> call -> list char.
Variable fresh : Z -> list char.

(** [(std::size_t) r + 1] for an [int] [r] *)
Definition size_of_length (r : Z) : Z := ((r mod 2 ^ 64) + 1) mod 2 ^ 64.

(** [std::string(buf.get(), buf.get() + k)]: the first [k] characters of
    the buffer. *)
Definition string_of_buffer (buf : list char) (k : Z) : list char :=
  firstn (Z.to_nat k) buf.

(** [vformat(const std::string _format, pargs_t... _args) {
       if (auto sz = (std::size_t) std::snprintf(nullptr, 0,
                        _format.c_str(), _args...) + 1; sz > 0) {
         std::unique_ptr<char[]> buf(new char[sz]);
         std::snprintf(buf.get(), sz, _format.c_str(), _args...);
         return std::string(buf.get(), buf.get() + sz - 1);
       }
       return {}; }] *)
Definition vformat (c : call) : list char :=
  let sz := size_of_length (measure c) in
  if (0 <? sz)%Z then
    let buf := fresh sz in
    let buf' := print_to buf sz c in
    string_of_buffer buf' (sz - 1)
  else [].

(** [vnformat(const std::string &_format, std::size_t _n,
              pargs_t... _args) {
       if (auto sz = (std::size_t) std::snprintf(nullptr, 0,
                        _format.c_str(), _args...) + 1;
           sz > 0 && _n != 0) {
         std::unique_ptr<char[]> buf(new char[_n]);
         std::snprintf(buf.get(), _n, _format.c_str(), _args...);
         return std::string(buf.get(), buf.get() + _n - 1);
       }
       return {}; }] *)
Definition vnformat (c : call) (_n : Z) : list char :=
  let sz := size_of_length (measure c) in
  if (0 <? sz)%Z && negb (_n =? 0)%Z then
    let buf := fresh _n in
    let buf' := print_to buf _n c in
    string_of_buffer buf' (_n - 1)
  else [].

(** [voformat(const std::string &_format, pargs_t... _args) {
       auto s = vformat(_format, _args...);
       return s.length() == 0 ? std::make_optional(s) : std::nullopt; }] *)
Definition voformat (c : call) : option (list char) :=
  let s := vformat c in
  if length s =? 0 then Some s else None.

(** What the C standard asks of [snprintf] on a buffer of [n > 0]
    characters, for a call that expands to [s]: the first [n - 1]
    characters of [s], or all of [s] when it is shorter, then the
    terminator [nul]; the rest of the buffer is not written. *)
Definition filled (nul : char) (s buf : list char) : list char :=
  let k := Nat.min (length s) (length buf - 1) in
  firstn k s ++ nul :: skipn (S k) buf.

(** The C library and the allocator do for the call [c], which expands
    to [s], what the standard asks: the measuring call returns the length
    of [s], an [int]; a writing call fills the buffer as [filled] says;
    [new char[n]] has [n] characters. *)
Definition conforming (nul : char) (c : call) (s : list char) : Prop :=
  measure c = Z.of_nat (length s) /\
  (Z.of_nat (length s) < 2 ^ 31)%Z /\
  (forall n, (0 <= n)%Z -> length (fresh n) = Z.to_nat n) /\
  (forall buf, buf <> [] ->
               print_to buf (Z.of_nat (length buf)) c = filled nul s buf).

End Printf.

(** A C library for calls without conversion specification: a call is
    the text it expands to. *)
Definition literal_measure (c : list ascii) : Z := Z.of_nat (length c).
Definition literal_print_to (buf : list ascii) (n : Z) (c : list ascii)
  : list ascii := filled zero c buf.
Definition literal_fresh (n : Z) : list ascii :=
  repeat "?"%char (Z.to_nat n).

End Format.

(** ** Sample trees over [nat], compared with [Nat.eqb] *)

(** Root [1] with children [2; 5], the node [2] with children [3; 4]:
    the tree [R [A [C, D], B]]. *)
Definition sample_A : node nat :=
  append (append (node_of 2) (node_of 3)) (node_of 4).
Definition sample_R : node nat :=
  append (append (node_of 1) sample_A) (node_of 5).

(** Root [0] with two children of value [1]: the first has a child [2],
    the second is a leaf. *)
Definition sample_twins : node nat :=
  append (append (node_of 0) (append (node_of 1) (node_of 2))) (node_of 1).

(** Root [0] with children valued [1; 2; 2; 3]. *)
Definition sample_siblings : node nat :=
  fold_left (fun r d => append r (node_of d)) [1; 2; 2; 3] (node_of 0).

(** An element type whose [==] and [!=] both answer [true]: it satisfies
    the concept [__is_cmp], which asks only that the two expressions
    exist and convert to [bool]. *)
Definition always (_ _ : unit) : bool := true.

(** * Properties *)

Section Facts.
Variable _ty : Type.
Variable ty_eq : _ty -> _ty -> bool.
Variable ty_ne : _ty -> _ty -> bool.

(** ** Induction over a node and its subtrees *)

Lemma node_rect_children (P : node _ty -> Prop) :
  (forall d p cs, Forall P cs -> P (mk_node d p cs)) ->
  forall n, P n.
Proof.
  intros step.
  fix IH 1.
  intros [d p cs].
  apply step.
  induction cs as [|c cs IHcs]; constructor.
  - apply IH.
  - exact IHcs.
Qed.

(** ** The pushing loop of the search, and stack equality *)

Lemma push_forward_app (c s : list (node _ty)) : push_forward c s = rev c ++ s.
Proof.
  unfold push_forward.
  revert s.
  induction c as [|x c IH]; intros s; simpl.
  - reflexivity.
  - rewrite IH, <- app_assoc. reflexivity.
Qed.

Lemma stack_eq_nil_r (s : list (node _ty)) : stack_eq ty_eq s [] = true <-> s = [].
Proof.
  destruct s; simpl; split; intros H; try reflexivity; discriminate.
Qed.

(** ** The orders of visit *)

Lemma rpreorder_unfold (n : node _ty) :
  rpreorder n = n :: flat_map (@rpreorder _ty) (rev (children n)).
Proof.
  destruct n as [d p cs]; simpl. f_equal.
  induction cs as [|c cs IH]; simpl.
  - reflexivity.
  - rewrite IH, flat_map_app. simpl. rewrite app_nil_r. reflexivity.
Qed.

Lemma preorder_unfold (n : node _ty) :
  preorder n = n :: flat_map (@preorder _ty) (children n).
Proof.
  destruct n; reflexivity.
Qed.

Lemma subnode_preorder (r n : node _ty) : In n (preorder r) <-> subnode r n.
Proof.
  split.
  - revert n. induction r as [d p cs IH] using node_rect_children.
    intros n [<-|Hin]; [constructor|].
    apply in_flat_map in Hin. destruct Hin as (c & Hc & Hn).
    rewrite Forall_forall in IH.
    apply subnode_child with c; [exact Hc|]. now apply IH.
  - induction 1 as [n|n c m Hc _ IH].
    + rewrite preorder_unfold. now left.
    + rewrite preorder_unfold. right.
      apply in_flat_map. now exists c.
Qed.

Lemma subnode_rpreorder (r n : node _ty) : In n (rpreorder r) <-> subnode r n.
Proof.
  split.
  - revert n. induction r as [d p cs IH] using node_rect_children.
    intros n Hin. rewrite rpreorder_unfold in Hin.
    destruct Hin as [<-|Hin]; [constructor|].
    apply in_flat_map in Hin. destruct Hin as (c & Hc & Hn).
    apply in_rev in Hc.
    rewrite Forall_forall in IH.
    apply subnode_child with c; [exact Hc|]. now apply IH.
  - induction 1 as [n|n c m Hc _ IH].
    + rewrite rpreorder_unfold. now left.
    + rewrite rpreorder_unfold. right.
      apply in_flat_map. exists c. split; [|exact IH].
      rewrite <- in_rev. exact Hc.
Qed.

(** ** The iterator from [begin()] *)

(** C3, on the code.  The iterator of a tree with root [r] starts at
    [r]: it is not equal to [end()] and [operator*] gives the value of
    [r].  When [r] has a child, which is so for the tree
    [R [A [C, D], B]], the first [operator++] already has no defined
    result: its loop takes [rbegin()] and [rend()] from two copies of the
    children.  So no run of increments and no walk from [begin()] to
    [end()] has a defined result on such a tree, and the nodes after the
    root are never reached. *)
Theorem iteration_undefined_after_root (r : node _ty) (k fuel : nat) :
  children r <> [] ->
  iter_ne ty_eq (Cxx20.begin (Cxx20.Tree r)) (Cxx20.end_ (Cxx20.Tree r))
  = true /\
  deref (Cxx20.begin (Cxx20.Tree r)) = Some (data r) /\
  incr (Cxx20.begin (Cxx20.Tree r)) = None /\
  incr_n (S k) (Cxx20.begin (Cxx20.Tree r)) = None /\
  traverse ty_eq fuel (Cxx20.begin (Cxx20.Tree r))
                      (Cxx20.end_ (Cxx20.Tree r)) = None.
Proof.
  intros Hchild.
  assert (Hincr : incr (Cxx20.begin (Cxx20.Tree r)) = None).
  { unfold incr, Cxx20.begin; simpl.
    destruct (children r); [contradiction|reflexivity]. }
  split; [reflexivity|]. split; [reflexivity|]. split; [exact Hincr|].
  split.
  - cbn [incr_n]. rewrite Hincr. reflexivity.
  - destruct fuel as [|fuel]; [reflexivity|].
    cbn [traverse].
    change (iter_ne ty_eq (Cxx20.begin (Cxx20.Tree r))
                          (Cxx20.end_ (Cxx20.Tree r))) with true.
    cbn iota. rewrite Hincr.
    destruct (deref (Cxx20.begin (Cxx20.Tree r))); reflexivity.
Qed.

(** ** The search loop *)

Lemma search_loop_find (x : _ty) (s : list (node _ty)) :
  search_loop ty_eq x s
  = find (fun n => ty_eq (data n) x) (flat_map (@rpreorder _ty) s).
Proof.
  funelim (search_loop ty_eq x s).
  - reflexivity.
  - simpl. rewrite rpreorder_unfold. simpl.
    destruct (ty_eq (data current_node) data0); [reflexivity|].
    rewrite H, push_forward_app, flat_map_app.
    reflexivity.
Qed.

Lemma find_first (f : node _ty -> bool) (l : list (node _ty)) (m : node _ty) :
  find f l = Some m ->
  exists before after,
    l = before ++ m :: after /\ forall n, In n before -> f n = false.
Proof.
  induction l as [|n l IH]; simpl; [discriminate|].
  destruct (f n) eqn:Hn.
  - intros H. injection H as ->. exists [], l. split; [reflexivity|].
    intros n' [].
  - intros H. destruct (IH H) as (before & after & -> & Hb).
    exists (n :: before), after. split; [reflexivity|].
    intros n' [<-|Hin]; [exact Hn|now apply Hb].
Qed.

(** C1, as the code has it.  [search(x)] returns the first node, in the
    order in which the loop pops nodes, whose value [v] has [v == x], and
    null when there is none.  The loop pushes the children of the popped
    node from the first to the last, so it pops the last child first: the
    order is a node before its children, the children from the last to
    the first.  Hence [search(x)] returns a node with value [x] whenever
    the tree has one and null when it has none.  [operator[](data)] of
    src/tree.h does the same on a tree that has a root. *)
Theorem search_first_in_mirror_order (r : node _ty) (x : _ty) :
  Cxx20.search ty_eq (Cxx20.Tree r) x
  = find (fun n => ty_eq (data n) x) (rpreorder r) /\
  TreeH.at_data ty_eq (TreeH.Tree (Some r)) x
  = find (fun n => ty_eq (data n) x) (rpreorder r) /\
  rpreorder r = r :: flat_map (@rpreorder _ty) (rev (children r)) /\
  ((exists n, subnode r n /\ ty_eq (data n) x = true) ->
   exists m, Cxx20.search ty_eq (Cxx20.Tree r) x = Some m /\
             subnode r m /\ ty_eq (data m) x = true) /\
  ((forall n, subnode r n -> ty_eq (data n) x = false) ->
   Cxx20.search ty_eq (Cxx20.Tree r) x = None) /\
  (forall m, Cxx20.search ty_eq (Cxx20.Tree r) x = Some m ->
             exists before after,
               rpreorder r = before ++ m :: after /\
               forall n, In n before -> ty_eq (data n) x = false).
Proof.
  assert (Hs : Cxx20.search ty_eq (Cxx20.Tree r) x
               = find (fun n => ty_eq (data n) x) (rpreorder r)).
  { unfold Cxx20.search; simpl. rewrite search_loop_find. simpl.
    rewrite app_nil_r. reflexivity. }
  split; [exact Hs|].
  split; [exact Hs|].
  split; [apply rpreorder_unfold|].
  rewrite Hs. split; [|split].
  - intros (n & Hn & Hx).
    destruct (find (fun n => ty_eq (data n) x) (rpreorder r)) as [m|] eqn:Hf.
    + apply find_some in Hf. destruct Hf as [Hin Hm].
      exists m. repeat split; [|exact Hm]. now apply subnode_rpreorder.
    + apply subnode_rpreorder in Hn.
      pose proof (find_none _ _ Hf n Hn) as Hc. simpl in Hc. congruence.
  - intros Hnone.
    destruct (find (fun n => ty_eq (data n) x) (rpreorder r)) as [m|] eqn:Hf;
      [|reflexivity].
    apply find_some in Hf. destruct Hf as [Hin Hm].
    apply subnode_rpreorder in Hin. rewrite (Hnone m Hin) in Hm. discriminate.
  - intros m Hm. now apply find_first.
Qed.

(** ** [append] *)


(** ** [remove] and [index] *)

Lemma vector_remove_first (v e : node _ty) (before after : list (node _ty)) :
  (forall x, In x before -> node_eq ty_eq x v = false) ->
  node_eq ty_eq e v = true ->
  vector_remove ty_eq (before ++ e :: after) v = before ++ after.
Proof.
  intros Hbefore He.
  induction before as [|x before IH]; simpl.
  - rewrite He. reflexivity.
  - rewrite (Hbefore x) by now left. f_equal.
    apply IH. intros y Hy. apply Hbefore. now right.
Qed.

Lemma vector_remove_absent (v : node _ty) (c : list (node _ty)) :
  (forall e, In e c -> node_eq ty_eq e v = false) ->
  vector_remove ty_eq c v = c.
Proof.
  induction c as [|e c IH]; intros Hall; simpl; [reflexivity|].
  rewrite (Hall e) by now left. f_equal.
  apply IH. intros e' He'. apply Hall. now right.
Qed.

(** C4, as the code has it.  [remove(child)] returns nothing.  Whatever
    the container's [remove] does, the function changes nothing but the
    children: the value and the parent of the node stay.  With the
    container's [remove] as the specification has it, the first child
    [e] with [e == child] is erased and no other, the others keeping
    their order; when no child is equal to [child] the node is unchanged
    and nothing is raised.  [tree::remove] does this on the root. *)
Theorem remove_erases_first_equal_child (this child : node _ty) :
  (forall member,
      snd (remove_with member this child) = tt /\
      _data (fst (remove_with member this child)) = _data this /\
      _parent (fst (remove_with member this child)) = _parent this /\
      _children (fst (remove_with member this child))
      = member (_children this) child) /\
  (forall before e after,
      _children this = before ++ e :: after ->
      (forall x, In x before -> node_eq ty_eq x child = false) ->
      node_eq ty_eq e child = true ->
      _children (fst (remove ty_eq this child)) = before ++ after) /\
  ((forall e, In e (_children this) -> node_eq ty_eq e child = false) ->
   remove ty_eq this child = (this, tt)) /\
  Cxx20.remove ty_eq (Cxx20.Tree this) child
  = (Cxx20.Tree (fst (remove ty_eq this child)), tt).
Proof.
  split; [intros member; repeat split|].
  split; [|split; [|reflexivity]].
  - intros before e after Hsplit Hbefore He.
    unfold remove, remove_with; simpl. rewrite Hsplit.
    now apply vector_remove_first.
  - intros Hall. unfold remove, remove_with.
    rewrite (@vector_remove_absent child (_children this) Hall).
    destruct this; reflexivity.
Qed.

Lemma std_find_le (child : node _ty) (c : list (node _ty)) :
  std_find ty_eq child c <= length c.
Proof.
  induction c as [|e c IH]; simpl; [lia|].
  destruct (node_eq ty_eq e child); lia.
Qed.

Lemma std_find_before (child : node _ty) (c : list (node _ty)) (j : nat) (e : node _ty) :
  j < std_find ty_eq child c -> nth_error c j = Some e ->
  node_eq ty_eq e child = false.
Proof.
  revert j. induction c as [|e0 c IH]; simpl; intros j Hj Hn; [lia|].
  destruct (node_eq ty_eq e0 child) eqn:He0; [lia|].
  destruct j as [|j]; simpl in Hn.
  - congruence.
  - apply (IH j); [lia|exact Hn].
Qed.

Lemma std_find_found (child : node _ty) (c : list (node _ty)) :
  std_find ty_eq child c < length c ->
  exists e, nth_error c (std_find ty_eq child c) = Some e /\
            node_eq ty_eq e child = true.
Proof.
  induction c as [|e0 c IH]; simpl; intros Hlt; [lia|].
  destruct (node_eq ty_eq e0 child) eqn:He0.
  - exists e0. now split.
  - apply IH. lia.
Qed.

Lemma std_find_first_equal (child : node _ty) (c : list (node _ty)) :
  std_find ty_eq child c
  = match first_equal ty_eq child c with
    | Some i => i
    | None => length c
    end.
Proof.
  induction c as [|e0 c IH]; simpl; [reflexivity|].
  destruct (node_eq ty_eq e0 child); [reflexivity|].
  rewrite IH. destruct (first_equal ty_eq child c); reflexivity.
Qed.

Lemma first_equal_none (child : node _ty) (c : list (node _ty)) :
  first_equal ty_eq child c = None <->
  forall e, In e c -> node_eq ty_eq e child = false.
Proof.
  induction c as [|e0 c IH]; simpl.
  - split; [intros _ e []|reflexivity].
  - destruct (node_eq ty_eq e0 child) eqn:He0.
    + split; [discriminate|]. intros H. rewrite (H e0) in He0 by now left.
      discriminate.
    + destruct (first_equal ty_eq child c) as [i|]; simpl.
      * split; [discriminate|]. intros H.
        assert (Hn : Some i = None)
          by (apply IH; intros e He; apply H; now right).
        discriminate.
      * split; [|reflexivity]. intros _ e [<-|He]; [exact He0|].
        now apply IH.
Qed.

(** C6, as the code has it.  [index(child)] returns an [unsigned int],
    the position that [std::find] stops at: the 0-based position of the
    first child [e] with [e == child], and the number of children (the
    position of [end()]) when no child is equal.  It agrees with the
    specification's [index_of] when that is a position, and returns the
    number of children where [index_of] is none. *)
Theorem index_first_equal_or_size (this child : node _ty) :
  index ty_eq this child <= length (children this) /\
  (forall j e, j < index ty_eq this child ->
               nth_error (children this) j = Some e ->
               node_eq ty_eq e child = false) /\
  (index ty_eq this child < length (children this) ->
   exists e, nth_error (children this) (index ty_eq this child) = Some e /\
             node_eq ty_eq e child = true) /\
  (index ty_eq this child = length (children this) <->
   forall e, In e (children this) -> node_eq ty_eq e child = false) /\
  index ty_eq this child
  = match index_of_spec ty_eq this child with
    | Some i => i
    | None => length (children this)
    end /\
  Cxx20.index ty_eq (Cxx20.Tree this) child = index ty_eq this child.
Proof.
  unfold index, index_of_spec, children, Cxx20.index; simpl.
  split; [apply std_find_le|].
  split; [intros j e; apply std_find_before|].
  split; [apply std_find_found|].
  split; [|split; [apply std_find_first_equal|reflexivity]].
  split.
  - intros Heq e He.
    apply In_nth_error in He. destruct He as [j Hj].
    apply (std_find_before child (_children this) (j := j)); [|exact Hj].
    rewrite Heq. apply nth_error_Some. rewrite Hj. discriminate.
  - intros Hall. apply first_equal_none in Hall.
    rewrite std_find_first_equal, Hall. reflexivity.
Qed.

(** ** Node comparison *)

(** C8. [a == b] on nodes holds exactly when the values are equal under
    [_ty]'s [==]; the answer depends on nothing but the two values, so
    replacing the children or the parent of either node leaves it
    unchanged.  The same holds for [_node::operator==] of src/tree.h. *)
Theorem node_eq_compares_values_only (a b : node _ty) :
  (node_eq ty_eq a b = true <-> ty_eq (_data a) (_data b) = true) /\
  (_node_eq ty_eq a b = true <-> ty_eq (_data a) (_data b) = true) /\
  (forall p1 c1 p2 c2,
      node_eq ty_eq (mk_node (_data a) p1 c1) (mk_node (_data b) p2 c2)
      = node_eq ty_eq a b) /\
  (forall p1 c1 p2 c2,
      _node_eq ty_eq (mk_node (_data a) p1 c1) (mk_node (_data b) p2 c2)
      = _node_eq ty_eq a b).
Proof.
  unfold node_eq, _node_eq; simpl.
  repeat split; intros; try assumption; reflexivity.
Qed.

(** C10, as the code has it.  In the C++20 draft [a != b] on nodes is
    [_ty]'s [!=] on the two values; it is the negation of [a == b] for
    the values on which [_ty]'s [!=] is the negation of [_ty]'s [==].  In
    src/tree.h [a != b] is [!(a._data == b._data)], the negation of
    [a == b] for every element type. *)
Theorem node_ne_follows_ty_ne (a b : node _ty) :
  node_ne ty_ne a b = ty_ne (_data a) (_data b) /\
  (ty_ne (_data a) (_data b) = negb (ty_eq (_data a) (_data b)) ->
   node_ne ty_ne a b = negb (node_eq ty_eq a b)) /\
  (node_ne ty_ne a b = negb (node_eq ty_eq a b) ->
   ty_ne (_data a) (_data b) = negb (ty_eq (_data a) (_data b))) /\
  _node_ne ty_eq a b = negb (_node_eq ty_eq a b).
Proof.
  unfold node_ne, node_eq, _node_ne, _node_eq.
  repeat split; intros H; exact H.
Qed.

(** ** Positional access *)

Lemma node_at_in_range (n : node _ty) (i : nat) (c : node _ty) :
  nth_error (children n) i = Some c -> node_at n i = ret c.
Proof.
  intros H. unfold node_at. fold (children n).
  assert (Hlt : i < length (children n))
    by (apply nth_error_Some; rewrite H; discriminate).
  destruct (Nat.leb_spec (length (children n)) i) as [Hle|_]; [lia|].
  rewrite H. reflexivity.
Qed.

(** C5. On a node with [k] children, [operator[](i)] throws
    [std::out_of_range] for every [i >= k] and returns the child at
    position [i] for every [i < k]; positions follow the order of the
    [append]s: a child appended to a node with [k] children sits at
    position [k] and the earlier positions keep their children.
    [tree::operator[]] gives what the root's [operator[]] gives. *)
Theorem node_at_bounds (n : node _ty) (i : nat) :
  (length (children n) <= i ->
   node_at n i = throw (out_of_range "index out of range")) /\
  (i < length (children n) ->
   exists c, nth_error (children n) i = Some c /\ node_at n i = ret c) /\
  (forall child,
      node_at (append n child) (length (children n))
      = ret (set_parent child (Some n))) /\
  (forall child,
      i < length (children n) -> node_at (append n child) i = node_at n i) /\
  Cxx20.at_ (Cxx20.Tree n) i = node_at n i.
Proof.
  split; [|split; [|split; [|split]]].
  - intros Hle. unfold node_at. fold (children n).
    destruct (Nat.leb_spec (length (children n)) i) as [_|Hlt]; [reflexivity|lia].
  - intros Hlt.
    destruct (nth_error (children n) i) as [c|] eqn:Hc.
    + exists c. split; [reflexivity|]. now apply node_at_in_range.
    + apply nth_error_None in Hc. lia.
  - intros child. apply node_at_in_range.
    unfold append, children; simpl.
    rewrite nth_error_app2 by lia. rewrite Nat.sub_diag. reflexivity.
  - intros child Hlt.
    destruct (nth_error (children n) i) as [c|] eqn:Hc.
    + rewrite (node_at_in_range n i Hc). apply node_at_in_range.
      unfold append, children in *; simpl.
      rewrite nth_error_app1 by assumption. exact Hc.
    + apply nth_error_None in Hc. lia.
  - unfold Cxx20.at_; simpl. destruct (node_at n i); reflexivity.
Qed.

(** ** One step of the iterator *)

(** C9, on the code.  [operator++] has no defined result at [end()],
    where the work list is empty and [top()] is read all the same.  It
    has none either on a work list whose top node has a child: the loop
    takes [rbegin()] and [rend()] from two copies of the children.  It
    has a result exactly when the work list is not empty and its top
    node is a leaf, and then it pops that node and pushes nothing. *)
Theorem incr_defined_on_leaf_top_only (it : _iterator _ty) :
  (iter_eq ty_eq it (mk_iterator None) = true <-> _nodes it = []) /\
  (_nodes it = [] -> incr it = None) /\
  (forall current rest,
      _nodes it = current :: rest -> children current <> [] ->
      incr it = None) /\
  (forall current rest,
      _nodes it = current :: rest -> children current = [] ->
      incr it = Some (Iterator rest)) /\
  (incr it <> None <->
   exists current rest,
     _nodes it = current :: rest /\ children current = []).
Proof.
  destruct it as [s]; simpl.
  split; [unfold iter_eq; simpl; apply stack_eq_nil_r|].
  split; [intros ->; reflexivity|].
  split; [|split].
  - intros current rest -> Hchild. unfold incr; simpl.
    destruct (children current); [contradiction|reflexivity].
  - intros current rest -> Hleaf. unfold incr; simpl.
    rewrite Hleaf. reflexivity.
  - destruct s as [|current rest]; unfold incr; simpl.
    + split; [congruence|]. intros (c & r & H & _). discriminate.
    + destruct (children current) as [|c cs] eqn:Hc.
      * split; [|discriminate]. intros _. now exists current, rest.
      * split; [congruence|].
        intros (c' & r' & H & Hleaf). injection H as <- _.
        rewrite Hc in Hleaf. discriminate.
Qed.

(** ** The empty tree *)

(** C7. The tree built by [tree()] has a null root; its [begin()] equals
    its [end()], so a traversal yields nothing; and [operator[](data)],
    the search of src/tree.h, returns null for every value. *)
Theorem empty_tree_has_nothing (x : _ty) (fuel : nat) :
  TreeH._root (TreeH.tree_empty _ty) = None /\
  iter_eq ty_eq (TreeH.begin (TreeH.tree_empty _ty))
                (TreeH.end_ (TreeH.tree_empty _ty)) = true /\
  iter_ne ty_eq (TreeH.begin (TreeH.tree_empty _ty))
                (TreeH.end_ (TreeH.tree_empty _ty)) = false /\
  traverse ty_eq fuel (TreeH.begin (TreeH.tree_empty _ty))
                      (TreeH.end_ (TreeH.tree_empty _ty)) = Some [] /\
  TreeH.at_data ty_eq (TreeH.tree_empty _ty) x = None.
Proof.
  repeat split. destruct fuel; reflexivity.
Qed.

End Facts.

(** * The properties on the sample trees *)

(** [search] on the tree with two children of value [1]: a node of value
    [1] is found, since the first child has that value, and none of value
    [7], since no node has it. *)
Lemma search_first_in_mirror_order_sample :
  (exists m, Cxx20.search Nat.eqb (Cxx20.Tree sample_twins) 1 = Some m /\
             subnode sample_twins m /\ Nat.eqb (data m) 1 = true) /\
  Cxx20.search Nat.eqb (Cxx20.Tree sample_twins) 7 = None.
Proof.
  split.
  - destruct (search_first_in_mirror_order Nat.eqb sample_twins 1)
      as (_ & _ & _ & Hfound & _).
    apply Hfound.
    exists (mk_node 1 (Some (node_of 0)) [mk_node 2 (Some (node_of 1)) []]).
    split; [|reflexivity].
    eapply subnode_child; [|apply subnode_self].
    left. reflexivity.
  - destruct (search_first_in_mirror_order Nat.eqb sample_twins 7)
      as (_ & _ & _ & _ & Hnone & _).
    apply Hnone.
    intros n Hn. apply subnode_preorder in Hn. vm_compute in Hn.
    destruct Hn as [<-|[<-|[<-|[<-|[]]]]]; reflexivity.
Defined.

(** The claim C1 says that [search] returns the first match of the
    pre-order.  On the tree with two children of value [1], [search(1)]
    returns the second child (a leaf), and the first match of the
    pre-order is the first child (which has the child [2]). *)
Lemma search_returns_last_twin :
  option_map (fun n => map (@data nat) (children n))
             (Cxx20.search Nat.eqb (Cxx20.Tree sample_twins) 1) = Some [] /\
  option_map (fun n => map (@data nat) (children n))
             (find (fun n => Nat.eqb (data n) 1) (preorder sample_twins))
  = Some [2] /\
  Cxx20.search Nat.eqb (Cxx20.Tree sample_twins) 1
  = nth_error (children sample_twins) 1 /\
  find (fun n => Nat.eqb (data n) 1) (preorder sample_twins)
  = nth_error (children sample_twins) 0 /\
  Cxx20.search Nat.eqb (Cxx20.Tree sample_twins) 1
  <> find (fun n => Nat.eqb (data n) 1) (preorder sample_twins).
Proof.
  repeat split; try reflexivity.
  vm_compute. discriminate.
Qed.


(** The iterator on the sample tree [1 [2 [3, 4], 5]], which is
    [R [A [C, D], B]] with [R = 1]: it starts at the root, and the first
    increment has no defined result. *)
Lemma iteration_undefined_after_root_sample :
  sample_R = family 1 2 5 3 4 /\
  iter_ne Nat.eqb (Cxx20.begin (Cxx20.Tree sample_R))
                  (Cxx20.end_ (Cxx20.Tree sample_R)) = true /\
  deref (Cxx20.begin (Cxx20.Tree sample_R)) = Some (data sample_R) /\
  incr (Cxx20.begin (Cxx20.Tree sample_R)) = None /\
  incr_n 5 (Cxx20.begin (Cxx20.Tree sample_R)) = None /\
  traverse Nat.eqb 5 (Cxx20.begin (Cxx20.Tree sample_R))
                     (Cxx20.end_ (Cxx20.Tree sample_R)) = None.
Proof.
  split; [reflexivity|].
  apply (iteration_undefined_after_root Nat.eqb sample_R 4 5).
  discriminate.
Defined.

(** [remove] on the children [1; 2; 2; 3]: of a node of value [2], whose
    first equal child is the second of the four, and of a node of value
    [9], which no child has. *)
Lemma remove_erases_first_equal_child_sample :
  map (@data nat)
      (_children (fst (remove Nat.eqb sample_siblings (node_of 2))))
  = [1; 2; 3] /\
  remove Nat.eqb sample_siblings (node_of 9) = (sample_siblings, tt).
Proof.
  split.
  - destruct (remove_erases_first_equal_child Nat.eqb sample_siblings
                                               (node_of 2))
      as (_ & Hfirst & _).
    rewrite (Hfirst [mk_node 1 (Some (node_of 0)) []]
                    (mk_node 2 (Some (mk_node 0 None
                                        [mk_node 1 (Some (node_of 0)) []]))
                             [])
                    (skipn 2 (_children sample_siblings))).
    + reflexivity.
    + reflexivity.
    + intros x [<-|[]]. reflexivity.
    + reflexivity.
  - destruct (remove_erases_first_equal_child Nat.eqb sample_siblings
                                               (node_of 9))
      as (_ & _ & Hsame & _).
    apply Hsame.
    intros e He. vm_compute in He.
    destruct He as [<-|[<-|[<-|[<-|[]]]]]; reflexivity.
Defined.

(** The claim C4 says that [remove] returns true when a child was equal
    and false when none was.  On the children [1; 2; 2; 3] the
    specification's [remove] returns true for a node of value [2] and
    false for one of value [9]; [remove] returns the same, the unit
    value, for both. *)
Lemma remove_returns_no_boolean :
  map (@data nat) (children sample_siblings) = [1; 2; 2; 3] /\
  snd (remove_spec Nat.eqb sample_siblings (node_of 2)) = true /\
  snd (remove_spec Nat.eqb sample_siblings (node_of 9)) = false /\
  snd (remove_spec Nat.eqb sample_siblings (node_of 2))
  <> snd (remove_spec Nat.eqb sample_siblings (node_of 9)) /\
  snd (remove Nat.eqb sample_siblings (node_of 2)) = tt /\
  snd (remove Nat.eqb sample_siblings (node_of 2))
  = snd (remove Nat.eqb sample_siblings (node_of 9)).
Proof.
  repeat split; try reflexivity.
  vm_compute. discriminate.
Qed.

(** [operator[]] on the children [1; 2; 2; 3]: position 4 is out of
    range, position 3 holds the child of value [3]. *)
Lemma node_at_bounds_sample :
  node_at sample_siblings 4 = throw (out_of_range "index out of range") /\
  exists c, nth_error (children sample_siblings) 3 = Some c /\
            node_at sample_siblings 3 = ret c.
Proof.
  split.
  - destruct (node_at_bounds sample_siblings 4) as (Hout & _).
    apply Hout. vm_compute. lia.
  - destruct (node_at_bounds sample_siblings 3) as (_ & Hin & _).
    apply Hin. vm_compute. lia.
Defined.

(** [index] on the children [1; 2; 2; 3]: the first child of value [2]
    is at position 1, and the child before it is not equal to it. *)
Lemma index_first_equal_or_size_sample :
  index Nat.eqb sample_siblings (node_of 2) = 1 /\
  (exists e,
      nth_error (children sample_siblings)
                (index Nat.eqb sample_siblings (node_of 2)) = Some e /\
      node_eq Nat.eqb e (node_of 2) = true) /\
  node_eq Nat.eqb (mk_node 1 (Some (node_of 0)) []) (node_of 2) = false.
Proof.
  split; [reflexivity|].
  destruct (index_first_equal_or_size Nat.eqb sample_siblings (node_of 2))
    as (_ & Hbefore & Hfound & _).
  split.
  - apply Hfound. vm_compute. lia.
  - apply (Hbefore 0); [vm_compute; lia|reflexivity].
Defined.

(** The claim C6 says that [index] returns none when no child is equal.
    On the children [1; 2; 2; 3] no child has the value [9]: the
    specification's [index_of] is none and [index] returns [4], the number
    of children. *)
Lemma index_of_absent_child_is_size :
  existsb (fun e => node_eq Nat.eqb e (node_of 9)) (children sample_siblings)
  = false /\
  index_of_spec Nat.eqb sample_siblings (node_of 9) = None /\
  index Nat.eqb sample_siblings (node_of 9) = 4 /\
  length (children sample_siblings) = 4.
Proof.
  repeat split.
Qed.

(** Node equality on two nodes of value [1] with different children and
    parents. *)
Lemma node_eq_compares_values_only_sample :
  nth_error (children sample_twins) 0 <> nth_error (children sample_twins) 1 /\
  node_eq Nat.eqb (mk_node 1 (Some (node_of 0)) [node_of 2]) (node_of 1)
  = true.
Proof.
  split; [vm_compute; discriminate|].
  destruct (node_eq_compares_values_only Nat.eqb
              (mk_node 1 (Some (node_of 0)) [node_of 2]) (node_of 1))
    as ((_ & Hvalues) & _).
  apply Hvalues. reflexivity.
Defined.

(** From [begin()] of the sample tree, whose root has children, and from
    [end()], [operator++] has no defined result; from [begin()] of a tree
    of one node it gives [end()]. *)
Lemma incr_defined_on_leaf_top_only_sample :
  incr (Cxx20.begin (Cxx20.Tree sample_R)) = None /\
  incr (Cxx20.end_ (Cxx20.Tree sample_R)) = None /\
  incr (Cxx20.begin (Cxx20.tree_of_data 7))
  = Some (Cxx20.end_ (Cxx20.tree_of_data 7)).
Proof.
  split; [|split].
  - destruct (incr_defined_on_leaf_top_only Nat.eqb
                (Cxx20.begin (Cxx20.Tree sample_R)))
      as (_ & _ & Hparent & _).
    apply (Hparent sample_R []); [reflexivity|discriminate].
  - destruct (incr_defined_on_leaf_top_only Nat.eqb
                (Cxx20.end_ (Cxx20.Tree sample_R)))
      as (_ & Hend & _).
    apply Hend. reflexivity.
  - destruct (incr_defined_on_leaf_top_only Nat.eqb
                (Cxx20.begin (Cxx20.tree_of_data 7)))
      as (_ & _ & _ & Hleaf & _).
    apply (Hleaf (node_of 7) []); reflexivity.
Defined.

(** With [Nat.eqb] for [==] and its negation for [!=], node [!=] is the
    negation of node [==]. *)
Lemma node_ne_follows_ty_ne_sample :
  node_ne (fun a b => negb (Nat.eqb a b)) (node_of 1) (node_of 2)
  = negb (node_eq Nat.eqb (node_of 1) (node_of 2)).
Proof.
  destruct (node_ne_follows_ty_ne Nat.eqb (fun a b => negb (Nat.eqb a b))
              (node_of 1) (node_of 2))
    as (_ & Hneg & _).
  apply Hneg. reflexivity.
Defined.

(** The claim C10 says that node [!=] is the negation of node [==] for
    every element type that satisfies the concept.  For the element type
    whose two operators both answer [true], [a != b] and [a == b] are
    both true. *)
Lemma node_ne_not_negation_of_node_eq :
  node_ne always (node_of tt) (node_of tt) = true /\
  node_eq always (node_of tt) (node_of tt) = true /\
  node_ne always (node_of tt) (node_of tt)
  <> negb (node_eq always (node_of tt) (node_of tt)).
Proof.
  repeat split. discriminate.
Qed.

(** * Further properties of the container *)

Section Compositions.
Variable _ty : Type.
Variable ty_eq : _ty -> _ty -> bool.

(** ** Helper facts *)

Lemma search_rpreorder (r : node _ty) (x : _ty) :
  Cxx20.search ty_eq (Cxx20.Tree r) x
  = find (fun n => ty_eq (data n) x) (rpreorder r).
Proof.
  unfold Cxx20.search; simpl. rewrite search_loop_find. simpl.
  rewrite app_nil_r. reflexivity.
Qed.

Lemma find_append (f : node _ty -> bool) (l1 l2 : list (node _ty)) :
  find f (l1 ++ l2)
  = match find f l1 with
    | Some m => Some m
    | None => find f l2
    end.
Proof.
  induction l1 as [|n l1 IH]; simpl; [reflexivity|].
  destruct (f n); [reflexivity|exact IH].
Qed.

Lemma node_at_out_of_range (n : node _ty) (i : nat) :
  length (children n) <= i ->
  node_at n i = throw (out_of_range "index out of range").
Proof.
  intros Hle. unfold node_at. fold (children n).
  destruct (Nat.leb_spec (length (children n)) i) as [_|Hlt]; [reflexivity|lia].
Qed.

Lemma std_find_append (v : node _ty) (l1 l2 : list (node _ty)) :
  std_find ty_eq v (l1 ++ l2)
  = if std_find ty_eq v l1 <? length l1
    then std_find ty_eq v l1
    else length l1 + std_find ty_eq v l2.
Proof.
  induction l1 as [|e l1 IH]; simpl; [reflexivity|].
  destruct (node_eq ty_eq e v); [reflexivity|].
  rewrite IH.
  change (S (std_find ty_eq v l1) <? S (length l1))
    with (std_find ty_eq v l1 <? length l1).
  destruct (std_find ty_eq v l1 <? length l1); reflexivity.
Qed.

Lemma std_find_absent (v : node _ty) (l : list (node _ty)) :
  std_find ty_eq v l = length l <->
  forall e, In e l -> node_eq ty_eq e v = false.
Proof.
  split.
  - intros Heq e He.
    apply In_nth_error in He. destruct He as [j Hj].
    apply (@std_find_before _ ty_eq v l j e); [|exact Hj].
    rewrite Heq. apply nth_error_Some. rewrite Hj. discriminate.
  - intros Hall. apply first_equal_none in Hall.
    rewrite std_find_first_equal, Hall. reflexivity.
Qed.

Lemma filter_unequal_all (v : node _ty) (l : list (node _ty)) :
  (forall e, In e l -> node_eq ty_eq e v = false) ->
  filter (fun e => negb (node_eq ty_eq e v)) l = l.
Proof.
  induction l as [|e l IH]; intros Hall; simpl; [reflexivity|].
  rewrite (Hall e) by now left. simpl. f_equal.
  apply IH. intros e' He'. apply Hall. now right.
Qed.

Lemma filter_unequal_vector_remove (v : node _ty) (c : list (node _ty)) :
  filter (fun e => negb (node_eq ty_eq e v)) (vector_remove ty_eq c v)
  = filter (fun e => negb (node_eq ty_eq e v)) c.
Proof.
  induction c as [|e c IH]; simpl; [reflexivity|].
  destruct (node_eq ty_eq e v) eqn:He; simpl; [reflexivity|].
  rewrite He, IH. reflexivity.
Qed.

Lemma length_vector_remove (v : node _ty) (c : list (node _ty)) :
  length (vector_remove ty_eq c v) <= length c /\
  (length (vector_remove ty_eq c v) = length c <->
   forall e, In e c -> node_eq ty_eq e v = false).
Proof.
  induction c as [|e c [IHle IHeq]]; simpl.
  - split; [lia|]. split; [intros _ e []|reflexivity].
  - destruct (node_eq ty_eq e v) eqn:He; simpl.
    + split; [lia|]. split; [lia|].
      intros Hall. rewrite (Hall e) in He by now left. discriminate.
    + split; [lia|]. split.
      * intros Hlen x [<-|Hx]; [exact He|]. apply IHeq; [lia|exact Hx].
      * intros Hall. f_equal. apply IHeq. intros x Hx. apply Hall. now right.
Qed.

Lemma length_list_remove (v : node _ty) (c : list (node _ty)) :
  length (list_remove ty_eq c v) <= length c /\
  (length (list_remove ty_eq c v) = length c <->
   forall e, In e c -> node_eq ty_eq e v = false).
Proof.
  unfold list_remove.
  induction c as [|e c [IHle IHeq]]; simpl.
  - split; [lia|]. split; [intros _ e []|reflexivity].
  - destruct (node_eq ty_eq e v) eqn:He; simpl.
    + split; [lia|]. split; [lia|].
      intros Hall. rewrite (Hall e) in He by now left. discriminate.
    + split; [lia|]. split.
      * intros Hlen x [<-|Hx]; [exact He|]. apply IHeq; [lia|exact Hx].
      * intros Hall. f_equal. apply IHeq. intros x Hx. apply Hall. now right.
Qed.

Lemma firstn_find_vector_remove (v : node _ty) (c : list (node _ty)) :
  firstn (std_find ty_eq v c) (vector_remove ty_eq c v)
  = firstn (std_find ty_eq v c) c.
Proof.
  induction c as [|e c IH]; simpl; [reflexivity|].
  destruct (node_eq ty_eq e v); simpl; [reflexivity|].
  rewrite IH. reflexivity.
Qed.

Lemma firstn_find_list_remove (v : node _ty) (c : list (node _ty)) :
  firstn (std_find ty_eq v c) (list_remove ty_eq c v)
  = firstn (std_find ty_eq v c) c.
Proof.
  unfold list_remove.
  induction c as [|e c IH]; simpl; [reflexivity|].
  destruct (node_eq ty_eq e v); simpl; [reflexivity|].
  rewrite IH. reflexivity.
Qed.

Lemma filter_unequal_twice (v : node _ty) (c : list (node _ty)) :
  filter (fun e => negb (node_eq ty_eq e v)) (list_remove ty_eq c v)
  = filter (fun e => negb (node_eq ty_eq e v)) c.
Proof.
  unfold list_remove.
  induction c as [|e c IH]; simpl; [reflexivity|].
  destruct (node_eq ty_eq e v) eqn:He; simpl; [exact IH|].
  rewrite He, IH. reflexivity.
Qed.

Lemma search_unfold (r : node _ty) (x : _ty) :
  Cxx20.search ty_eq (Cxx20.Tree r) x
  = if ty_eq (data r) x
    then Some r
    else find (fun n => ty_eq (data n) x)
              (flat_map (@rpreorder _ty) (rev (children r))).
Proof.
  rewrite search_rpreorder, rpreorder_unfold. reflexivity.
Qed.

Lemma search_append_unfold (r c : node _ty) (x : _ty) :
  Cxx20.search ty_eq (Cxx20.append (Cxx20.Tree r) c) x
  = if ty_eq (data r) x
    then Some (append r c)
    else match Cxx20.search ty_eq (Cxx20.Tree (set_parent c (Some r))) x with
         | Some m => Some m
         | None => find (fun n => ty_eq (data n) x)
                        (flat_map (@rpreorder _ty) (rev (children r)))
         end.
Proof.
  change (Cxx20.append (Cxx20.Tree r) c) with (Cxx20.Tree (append r c)).
  rewrite search_unfold.
  change (data (append r c)) with (data r).
  destruct (ty_eq (data r) x); [reflexivity|].
  change (children (append r c))
    with (children r ++ [set_parent c (Some r)]).
  rewrite rev_app_distr.
  change (rev [set_parent c (Some r)] ++ rev (children r))
    with (set_parent c (Some r) :: rev (children r)).
  cbn [flat_map]. rewrite find_append, search_rpreorder. reflexivity.
Qed.

(** ** Dereferencing the iterator *)

(** X1. [operator*] (and [operator->], which takes the address of the
    same field) has a result exactly when the iterator is not equal to
    [end()], and the result is the value of the node on top of the work
    list; wherever [operator++] has a result, [operator*] has one. *)
Theorem deref_defined_off_end (it : _iterator _ty) :
  (deref it = None <-> iter_eq ty_eq it (mk_iterator None) = true) /\
  (incr it <> None -> deref it <> None) /\
  (forall v, deref it = Some v <->
             exists current rest,
               nodes it = current :: rest /\ v = data current).
Proof.
  destruct it as [[|current rest]]; unfold deref, incr, iter_eq; simpl.
  - repeat split; try reflexivity; try discriminate; try congruence.
    intros (c & r & H & _). discriminate.
  - repeat split; try discriminate.
    + intros H. injection H as <-. now exists current, rest.
    + intros (c & r & H & ->). injection H as <- _. reflexivity.
Qed.

(** ** [search] after [append] *)

(** X4. [search] after an [append] to the root.  When the root's value
    is equal to [x] the root is returned.  Otherwise the subtree of the
    child just appended is searched first, and only when it has no match
    is the result that of the search before the [append]: the newest
    child wins over the older ones. *)
Theorem search_after_append (r c : node _ty) (x : _ty) :
  (ty_eq (data r) x = true ->
   Cxx20.search ty_eq (Cxx20.append (Cxx20.Tree r) c) x
   = Some (append r c)) /\
  (ty_eq (data r) x = false ->
   Cxx20.search ty_eq (Cxx20.append (Cxx20.Tree r) c) x
   = match Cxx20.search ty_eq (Cxx20.Tree (set_parent c (Some r))) x with
     | Some m => Some m
     | None => Cxx20.search ty_eq (Cxx20.Tree r) x
     end) /\
  (ty_eq (data r) x = false -> ty_eq (data c) x = true ->
   Cxx20.search ty_eq (Cxx20.append (Cxx20.Tree r) c) x
   = Some (set_parent c (Some r))).
Proof.
  split; [|split].
  - intros Hr. rewrite search_append_unfold, Hr. reflexivity.
  - intros Hr. rewrite search_append_unfold, (search_unfold r), Hr.
    reflexivity.
  - intros Hr Hc.
    rewrite search_append_unfold, Hr, (search_unfold (set_parent c (Some r))).
    change (data (set_parent c (Some r))) with (data c).
    rewrite Hc. reflexivity.
Qed.

(** ** [append], [index], [operator[]] and [remove] together *)

(** X5. For a child whose value is equal to itself, [append] leaves the
    answer of [index] for that child as it was: before the [append] it
    was the position of an equal child, or the number of children, which
    is where the new child is put.  Reading that position with
    [operator[]] then returns a child equal to the one appended. *)
Theorem index_stable_under_append (n c : node _ty) :
  ty_eq (data c) (data c) = true ->
  index ty_eq (append n c) c = index ty_eq n c /\
  Cxx20.index ty_eq (Cxx20.append (Cxx20.Tree n) c) c
  = Cxx20.index ty_eq (Cxx20.Tree n) c /\
  exists e, node_at (append n c) (index ty_eq (append n c) c) = ret e /\
            node_eq ty_eq e c = true.
Proof.
  intros Hrefl.
  assert (Hnew : node_eq ty_eq (set_parent c (Some n)) c = true) by exact Hrefl.
  assert (Hidx : index ty_eq (append n c) c = index ty_eq n c).
  { unfold index.
    change (_children (append n c))
      with (_children n ++ [set_parent c (Some n)]).
    rewrite std_find_append.
    destruct (Nat.ltb_spec (std_find ty_eq c (_children n))
                           (length (_children n))) as [Hlt|Hge];
      [reflexivity|].
    pose proof (std_find_le ty_eq c (_children n)) as Hle.
    cbn [std_find]. rewrite Hnew. lia. }
  split; [exact Hidx|]. split; [exact Hidx|].
  destruct (@std_find_found _ ty_eq c (_children (append n c)))
    as (e & He & Heq).
  { fold (index ty_eq (append n c) c). rewrite Hidx.
    pose proof (std_find_le ty_eq c (_children n)) as Hle.
    unfold index.
    change (_children (append n c))
      with (_children n ++ [set_parent c (Some n)]).
    rewrite length_app. simpl. lia. }
  exists e. split; [|exact Heq].
  apply node_at_in_range. exact He.
Qed.

(** X6. Giving the answer of [index] to [operator[]]: it throws
    [std::out_of_range] exactly when no child is equal to the one asked
    for, and otherwise returns the first child that is equal. *)
Theorem node_at_index (n c : node _ty) :
  (node_at n (index ty_eq n c) = throw (out_of_range "index out of range")
   <-> forall e, In e (children n) -> node_eq ty_eq e c = false) /\
  (forall e, node_at n (index ty_eq n c) = ret e ->
             node_eq ty_eq e c = true /\
             nth_error (children n) (index ty_eq n c) = Some e) /\
  Cxx20.at_ (Cxx20.Tree n) (Cxx20.index ty_eq (Cxx20.Tree n) c)
  = node_at n (index ty_eq n c).
Proof.
  pose proof (std_find_le ty_eq c (_children n)) as Hle.
  assert (Hcases :
            (index ty_eq n c = length (children n) /\
             node_at n (index ty_eq n c)
             = throw (out_of_range "index out of range")) \/
            (exists e, nth_error (children n) (index ty_eq n c) = Some e /\
                       node_eq ty_eq e c = true /\
                       node_at n (index ty_eq n c) = ret e)).
  { unfold index, children in *.
    destruct (Nat.eq_dec (std_find ty_eq c (_children n))
                         (length (_children n))) as [Heq|Hne].
    - left. split; [exact Heq|].
      apply node_at_out_of_range. unfold children. lia.
    - right.
      destruct (@std_find_found _ ty_eq c (_children n)) as (e & He & Heq);
        [lia|].
      exists e. repeat split; try assumption.
      now apply node_at_in_range. }
  split; [|split].
  - split.
    + intros Hthrow. apply std_find_absent.
      destruct Hcases as [[Heq _]|(e & _ & _ & Hret)]; [exact Heq|].
      rewrite Hret in Hthrow. discriminate.
    + intros Hall. apply std_find_absent in Hall.
      apply node_at_out_of_range. unfold index, children in *. lia.
  - intros e Hret.
    destruct Hcases as [[_ Hthrow]|(e' & He' & Heq & Hret')].
    + rewrite Hthrow in Hret. discriminate.
    + rewrite Hret' in Hret. injection Hret as <-. now split.
  - clear Hcases. unfold Cxx20.at_, Cxx20.index, index, children.
    cbn [Cxx20._root].
    destruct (node_at n (std_find ty_eq c (_children n))); reflexivity.
Qed.


(** X8. Whether the container's [remove] erases the first equal element
    or every equal element, [remove(child)] keeps every child that is
    not equal to [child], in the same order, and the children before the
    position that [index(child)] answers stay where they are; it never
    adds a child, and it keeps the number of children exactly when no
    child is equal to [child], in which case the node is unchanged. *)
Theorem remove_keeps_unequal_children
        (member : list (node _ty) -> node _ty -> list (node _ty))
        (n c : node _ty) :
  member = vector_remove ty_eq \/ member = list_remove ty_eq ->
  filter (fun e => negb (node_eq ty_eq e c))
         (children (fst (remove_with member n c)))
  = filter (fun e => negb (node_eq ty_eq e c)) (children n) /\
  firstn (index ty_eq n c) (children (fst (remove_with member n c)))
  = firstn (index ty_eq n c) (children n) /\
  length (children (fst (remove_with member n c))) <= length (children n) /\
  (length (children (fst (remove_with member n c))) = length (children n)
   <-> forall e, In e (children n) -> node_eq ty_eq e c = false) /\
  ((forall e, In e (children n) -> node_eq ty_eq e c = false) ->
   remove_with member n c = (n, tt)).
Proof.
  intros Hmember.
  assert (Hlen : length (member (_children n) c) <= length (_children n) /\
                 (length (member (_children n) c) = length (_children n) <->
                  forall e, In e (_children n) -> node_eq ty_eq e c = false))
    by (destruct Hmember as [->| ->];
        [apply length_vector_remove|apply length_list_remove]).
  unfold remove_with, index, children. cbn [fst _children].
  split; [|split; [|split; [|split]]].
  - destruct Hmember as [->| ->];
      [apply filter_unequal_vector_remove|apply filter_unequal_twice].
  - destruct Hmember as [->| ->];
      [apply firstn_find_vector_remove|apply firstn_find_list_remove].
  - apply Hlen.
  - apply Hlen.
  - intros Hall.
    replace (member (_children n) c) with (_children n);
      [destruct n; reflexivity|].
    destruct Hmember as [->| ->].
    + symmetry. now apply vector_remove_absent.
    + symmetry. now apply filter_unequal_all.
Qed.

(** ** Leaves, roots and one-node trees *)

(** X11. [is_leaf()] holds exactly when [operator[]] throws for every
    index, and exactly when the subtree is the node alone.  A node made
    from a value is a leaf and a root; a node that a child was appended
    to is no leaf, and the child stored in it is no root. *)
Theorem leaf_and_root (n c : node _ty) (d : _ty) :
  (is_leaf n = true <->
   forall i, node_at n i = throw (out_of_range "index out of range")) /\
  (is_leaf n = true <-> count n = 1) /\
  is_leaf (node_of d) = true /\
  is_root (node_of d) = true /\
  is_leaf (append n c) = false /\
  (forall e, In e (children (append n c)) -> ~ In e (children n) ->
             is_root e = false).
Proof.
  split; [|split; [|split; [|split; [|split]]]]; try reflexivity.
  - split.
    + intros Hleaf i. apply node_at_out_of_range.
      unfold is_leaf, children in *.
      destruct (_children n); [simpl; lia|discriminate].
    + intros Hall. unfold is_leaf.
      destruct (_children n) as [|e l] eqn:Hc; [reflexivity|].
      specialize (Hall 0).
      rewrite (@node_at_in_range _ n 0 e) in Hall; [discriminate|].
      unfold children. rewrite Hc. reflexivity.
  - destruct n as [d' p cs]. unfold is_leaf; simpl.
    destruct cs as [|[d'' p'' cs''] cs]; simpl; split;
      try reflexivity; intros H; try discriminate; lia.
  - unfold is_leaf, append; simpl.
    destruct (_children n); reflexivity.
  - intros e He Hold. unfold append, children in He; simpl in He.
    apply in_app_iff in He. destruct He as [He|[<-|[]]]; [contradiction|].
    reflexivity.
Qed.


(** ** Comparing iterators *)

(** X13. Two iterators are equal under [operator==] exactly when their
    work lists have the same length and hold, position by position,
    nodes of equal value; the nodes need not be the same.  So the
    [begin()] of two trees compare as the values of the two roots do,
    and [begin()] equals [end()] exactly on a tree without root. *)
Theorem iter_eq_compares_values (a b : _iterator _ty) :
  (iter_eq ty_eq a b = true <->
   Forall2 (fun x y => ty_eq (data x) (data y) = true) (nodes a) (nodes b)) /\
  iter_ne ty_eq a b = negb (iter_eq ty_eq a b) /\
  (forall r1 r2,
      iter_eq ty_eq (Cxx20.begin (Cxx20.Tree r1)) (Cxx20.begin (Cxx20.Tree r2))
      = ty_eq (data r1) (data r2)) /\
  (forall t,
      iter_eq ty_eq (TreeH.begin t) (TreeH.end_ t) = true
      <-> TreeH._root t = None).
Proof.
  split; [|split; [reflexivity|split]].
  - destruct a as [sa]; destruct b as [sb]. unfold iter_eq, nodes; simpl.
    revert sb. induction sa as [|x sa IH]; intros [|y sb]; simpl.
    + split; [constructor|reflexivity].
    + split; [discriminate|]. intros H; inversion H.
    + split; [discriminate|]. intros H; inversion H.
    + rewrite andb_true_iff, IH. split.
      * intros [Hxy Hrest]. now constructor.
      * intros H; inversion H; subst. now split.
  - intros r1 r2. unfold iter_eq, Cxx20.begin, nodes, node_eq; simpl.
    apply andb_true_r.
  - intros [[root|]]; unfold iter_eq, TreeH.begin, TreeH.end_; simpl;
      split; intros H; try reflexivity; discriminate.
Qed.

End Compositions.

(** * Properties of the format functions *)

Section FormatFacts.
Variable char : Type.
Variable call : Type.
Variable measure : call -> Z.
Variable print_to : list char -> Z -> call -> list char.
Variable fresh : Z -> list char.
Variable nul : char.

Lemma size_of_length_cases (r : Z) :
  (- 2 ^ 31 <= r < 2 ^ 31)%Z ->
  (0 <= r /\ Format.size_of_length r = r + 1)%Z \/
  (r = -1 /\ Format.size_of_length r = 0)%Z \/
  (r < -1 /\ Format.size_of_length r = 2 ^ 64 + r + 1)%Z.
Proof.
  unfold Format.size_of_length.
  change (2 ^ 31)%Z with 2147483648%Z.
  change (2 ^ 64)%Z with 18446744073709551616%Z.
  intros Hr.
  Z.div_mod_to_equations. lia.
Qed.


Lemma fresh_not_nil (n : Z) :
  (forall n, (0 <= n)%Z -> length (fresh n) = Z.to_nat n) ->
  (0 < n)%Z -> fresh n <> [] /\ Z.of_nat (length (fresh n)) = n.
Proof.
  intros Hfresh Hn.
  pose proof (Hfresh n ltac:(lia)) as Hlen.
  split; [|lia].
  intros Hnil. rewrite Hnil in Hlen. simpl in Hlen. lia.
Qed.

Lemma vformat_conforming (c : call) (s : list char) :
  Format.conforming measure print_to fresh nul c s ->
  Format.vformat measure print_to fresh c = s.
Proof.
  intros (Hm & Hint & Hfresh & Hprint).
  unfold Format.vformat. rewrite Hm.
  assert (Hrange : (- 2 ^ 31 <= Z.of_nat (length s) < 2 ^ 31)%Z) by lia.
  destruct (size_of_length_cases Hrange) as [[_ Hsz]|[[H _]|[H _]]];
    try lia.
  rewrite Hsz.
  destruct (Z.ltb_spec 0 (Z.of_nat (length s) + 1)) as [Hpos|]; [|lia].
  destruct (@fresh_not_nil (Z.of_nat (length s) + 1) Hfresh Hpos)
    as [Hnil Hlen].
  rewrite <- Hlen at 2. rewrite (Hprint _ Hnil).
  unfold Format.string_of_buffer, Format.filled.
  replace (Z.to_nat (Z.of_nat (length s) + 1 - 1)) with (length s) by lia.
  replace (length (fresh (Z.of_nat (length s) + 1)) - 1) with (length s) by lia.
  rewrite Nat.min_id, firstn_all, firstn_app, firstn_all, Nat.sub_diag.
  simpl. apply app_nil_r.
Qed.

(** X14. With a conforming C library, [vformat] returns the text the
    call expands to: all of it, without the terminator, however long it
    is (within [int]). *)
Theorem vformat_returns_expansion (c : call) (s : list char) :
  Format.conforming measure print_to fresh nul c s ->
  Format.vformat measure print_to fresh c = s /\
  Z.of_nat (length (Format.vformat measure print_to fresh c)) = measure c.
Proof.
  intros Hc. rewrite (vformat_conforming Hc).
  split; [reflexivity|]. destruct Hc as (Hm & _). now rewrite Hm.
Qed.

(** X15. [voformat] returns a value only when the formatted text is
    empty, and then the empty text: with a conforming C library, a call
    that expands to a text that is not empty gives [std::nullopt]. *)
Theorem voformat_keeps_only_empty (c : call) (s : list char) :
  (forall r, Format.voformat measure print_to fresh c = Some r -> r = []) /\
  (Format.conforming measure print_to fresh nul c s ->
   (s <> [] -> Format.voformat measure print_to fresh c = None) /\
   (s = [] -> Format.voformat measure print_to fresh c = Some [])).
Proof.
  split.
  - intros r. unfold Format.voformat.
    destruct (Format.vformat measure print_to fresh c) as [|x l];
      simpl; intros H; [now injection H as <-|discriminate].
  - intros Hc. unfold Format.voformat. rewrite (vformat_conforming Hc).
    split; intros Hs; destruct s; try congruence; reflexivity.
Qed.

(** X16. The test [sz > 0] on [(std::size_t) r + 1] fails for one
    [int] only, [-1]: then the three functions return the empty text
    ([voformat] returns it as a value).  For a count [r >= 0] the size
    is [r + 1]; for every other negative [r] the test passes, with a
    size of [2^64 + r + 1] characters. *)
Theorem size_test_rejects_minus_one_only (c : call) (n : Z) :
  (- 2 ^ 31 <= measure c < 2 ^ 31)%Z ->
  ((0 <? Format.size_of_length (measure c))%Z = false <-> measure c = (-1)%Z) /\
  ((0 <= measure c)%Z ->
   Format.size_of_length (measure c) = (measure c + 1)%Z) /\
  ((measure c < -1)%Z ->
   Format.size_of_length (measure c) = (2 ^ 64 + measure c + 1)%Z /\
   (2 ^ 64 - 2 ^ 31 < Format.size_of_length (measure c))%Z) /\
  (measure c = (-1)%Z ->
   Format.vformat measure print_to fresh c = [] /\
   Format.vnformat measure print_to fresh c n = [] /\
   Format.voformat measure print_to fresh c = Some []).
Proof.
  intros Hr.
  pose proof (size_of_length_cases Hr) as Hcases.
  split; [|split; [|split]].
  - destruct Hcases as [[H Hsz]|[[H Hsz]|[H Hsz]]]; rewrite Hsz;
      split; intros Hf; try (apply Z.ltb_ge in Hf); try reflexivity; lia.
  - intros H0. destruct Hcases as [[H Hsz]|[[H Hsz]|[H Hsz]]]; lia.
  - intros Hneg. destruct Hcases as [[H Hsz]|[[H Hsz]|[H Hsz]]]; lia.
  - intros Hm1. destruct Hcases as [[H Hsz]|[[H Hsz]|[H Hsz]]]; try lia.
    unfold Format.voformat, Format.vformat, Format.vnformat.
    rewrite Hsz. repeat split.
Qed.


End FormatFacts.

(** * The further properties on samples *)

(** At [end()] [operator*] has no result; at [begin()] of a tree of one
    node, where [operator++] has a result, it has one. *)
Lemma deref_defined_off_end_sample :
  deref (Cxx20.end_ (Cxx20.Tree sample_R)) = None /\
  deref (Cxx20.begin (Cxx20.tree_of_data 7)) <> None.
Proof.
  split.
  - destruct (deref_defined_off_end Nat.eqb
                (Cxx20.end_ (Cxx20.Tree sample_R))) as (Hend & _).
    apply Hend. reflexivity.
  - destruct (deref_defined_off_end Nat.eqb
                (Cxx20.begin (Cxx20.tree_of_data 7))) as (_ & Hincr & _).
    apply Hincr. discriminate.
Defined.

(** [search(1)] on the tree of twins after a third node of value [1] is
    appended returns the new node. *)
Lemma search_after_append_sample :
  Cxx20.search Nat.eqb (Cxx20.append (Cxx20.Tree sample_twins) (node_of 1)) 1
  = Some (set_parent (node_of 1) (Some sample_twins)).
Proof.
  destruct (search_after_append Nat.eqb sample_twins (node_of 1) 1)
    as (_ & _ & Hnew).
  apply Hnew; reflexivity.
Defined.

(** [index] of a node of value [2] before and after it is appended to
    the children [1; 2; 2; 3]. *)
Lemma index_stable_under_append_sample :
  index Nat.eqb (append sample_siblings (node_of 2)) (node_of 2)
  = index Nat.eqb sample_siblings (node_of 2) /\
  Cxx20.index Nat.eqb (Cxx20.append (Cxx20.Tree sample_siblings) (node_of 2))
              (node_of 2)
  = Cxx20.index Nat.eqb (Cxx20.Tree sample_siblings) (node_of 2) /\
  exists e,
    node_at (append sample_siblings (node_of 2))
            (index Nat.eqb (append sample_siblings (node_of 2)) (node_of 2))
    = ret e /\
    node_eq Nat.eqb e (node_of 2) = true.
Proof.
  apply (index_stable_under_append Nat.eqb sample_siblings (node_of 2)).
  reflexivity.
Defined.

(** [operator[]] of the [index] of an absent child throws. *)
Lemma node_at_index_sample :
  node_at sample_siblings (index Nat.eqb sample_siblings (node_of 9))
  = throw (out_of_range "index out of range").
Proof.
  destruct (node_at_index Nat.eqb sample_siblings (node_of 9))
    as ((_ & Habsent) & _).
  apply Habsent.
  intros e He. vm_compute in He.
  destruct He as [<-|[<-|[<-|[<-|[]]]]]; reflexivity.
Defined.


(** [remove] of a node of value [2] from the children [1; 2; 2; 3]
    keeps the children of values [1] and [3] under either reading of the
    container's [remove]. *)
Lemma remove_keeps_unequal_children_sample :
  map (@data nat)
      (filter (fun e => negb (node_eq Nat.eqb e (node_of 2)))
              (children (fst (remove_with (vector_remove Nat.eqb)
                                          sample_siblings (node_of 2)))))
  = [1; 3] /\
  map (@data nat)
      (filter (fun e => negb (node_eq Nat.eqb e (node_of 2)))
              (children (fst (remove_with (list_remove Nat.eqb)
                                          sample_siblings (node_of 2)))))
  = [1; 3].
Proof.
  split.
  - destruct (@remove_keeps_unequal_children _ Nat.eqb (vector_remove Nat.eqb)
                sample_siblings (node_of 2)) as (Hkept & _);
      [left; reflexivity|].
    rewrite Hkept. reflexivity.
  - destruct (@remove_keeps_unequal_children _ Nat.eqb (list_remove Nat.eqb)
                sample_siblings (node_of 2)) as (Hkept & _);
      [right; reflexivity|].
    rewrite Hkept. reflexivity.
Defined.

(** A node made from a value throws for every index. *)
Lemma leaf_and_root_sample :
  node_at (node_of 7) 0 = throw (out_of_range "index out of range").
Proof.
  destruct (leaf_and_root (node_of 7) (node_of 8) 7) as ((Hleaf & _) & _).
  apply Hleaf. reflexivity.
Defined.

(** Two [begin()] iterators over different trees with equal root
    values. *)
Lemma iter_eq_compares_values_sample :
  iter_eq Nat.eqb (Cxx20.begin (Cxx20.Tree (node_of 1)))
                  (Cxx20.begin (Cxx20.Tree sample_R)) = true.
Proof.
  destruct (iter_eq_compares_values Nat.eqb
              (Cxx20.begin (Cxx20.Tree (node_of 1)))
              (Cxx20.begin (Cxx20.Tree sample_R)))
    as ((_ & Hvalues) & _).
  apply Hvalues. repeat constructor.
Defined.

(** The C library for calls without conversion specification conforms,
    for every text shorter than [2^31]. *)
Lemma literal_conforming (c : list ascii) :
  (Z.of_nat (length c) < 2 ^ 31)%Z ->
  Format.conforming Format.literal_measure Format.literal_print_to
                    Format.literal_fresh zero c c.
Proof.
  intros Hlen. unfold Format.conforming.
  split; [reflexivity|]. split; [exact Hlen|]. split.
  - intros n _. unfold Format.literal_fresh. apply repeat_length.
  - intros buf _. reflexivity.
Qed.

(** [vformat] of the text [hi]. *)
Lemma vformat_returns_expansion_sample :
  Format.vformat Format.literal_measure Format.literal_print_to
                 Format.literal_fresh ["h"; "i"]%char
  = ["h"; "i"]%char.
Proof.
  apply (vformat_returns_expansion
           (@literal_conforming ["h"; "i"]%char ltac:(simpl; lia))).
Defined.

(** [voformat] of the text [hi] is [std::nullopt]. *)
Lemma voformat_keeps_only_empty_sample :
  Format.voformat Format.literal_measure Format.literal_print_to
                  Format.literal_fresh ["h"; "i"]%char
  = None.
Proof.
  destruct (voformat_keeps_only_empty
              Format.literal_measure Format.literal_print_to
              Format.literal_fresh zero ["h"; "i"]%char ["h"; "i"]%char)
    as (_ & Hconf).
  destruct (Hconf (@literal_conforming ["h"; "i"]%char ltac:(simpl; lia)))
    as (Hnone & _).
  apply Hnone. discriminate.
Defined.

(** The size for the count 2 is 3. *)
Lemma size_test_rejects_minus_one_only_sample :
  Format.size_of_length (Format.literal_measure ["h"; "i"]%char) = 3%Z.
Proof.
  destruct (size_test_rejects_minus_one_only
              Format.literal_measure Format.literal_print_to
              Format.literal_fresh ["h"; "i"]%char 0)
    as (_ & Hcount & _).
  - unfold Format.literal_measure. simpl. lia.
  - apply Hcount. unfold Format.literal_measure. simpl. lia.
Defined.

